(** * skadoo.flag: derivation, detection and value extraction of one
      command-line flag

    A shallow embedding of [src/skadoo/flag.py].  Python strings are
    [string], the argument vector is a [list string], the [Flag] named tuple
    is a record, and raising is a result in a sum type.  The functions of
    [flag.py] read the argument vector through [skadoo.utils]; here they are
    computations of a reader-and-error monad over that vector. *)

From Stdlib Require Import Ascii String Lia.
From stdpp Require Import base option list strings.

(** ** Exceptions and the computation monad *)

(** The exceptions the module can raise: [ValueError] carries the message
    built by [Flag.validate] (or by [list.index]), [IndexError] is the
    subscript [parts[index + 1]] out of range, [TypeError] is [None + 1]. *)
Inductive exn : Type :=
| ValueError (msg : string)
| IndexError
| TypeError.

(** A computation reads the process's argument vector (program name
    excluded) and either raises or returns. *)
Definition Cmd (A : Type) : Type := list string -> exn + A.

Definition ret {A} (a : A) : Cmd A := fun _ => inr a.

Definition raise {A} (e : exn) : Cmd A := fun _ => inl e.

Definition bind {A B} (m : Cmd A) (k : A -> Cmd B) : Cmd B :=
  fun argv => match m argv with
              | inl e => inl e
              | inr a => k a argv
              end.

Definition lift {A} (r : exn + A) : Cmd A := fun _ => r.

Notation "'let*' x := m 'in' k" := (bind m (fun x => k))
  (at level 10, x name, m at level 100, k at level 200).

(** ** Python list and string primitives used by the module *)

(** [x in l] on a list of strings: equality of strings, element by element. *)
Definition contains (x : string) (l : list string) : bool :=
  bool_decide (x ∈ l).

(** [l.index(x)]: the position of the first element equal to [x]; raises
    [ValueError] when there is none. *)
Fixpoint find_index (x : string) (l : list string) : option nat :=
  match l with
  | [] => None
  | y :: l' => if String.eqb y x then Some 0 else S <$> find_index x l'
  end.

Definition index (l : list string) (x : string) : exn + nat :=
  match find_index x l with
  | Some i => inr i
  | None => inl (ValueError (x +:+ " is not in list"))
  end.

(** [l[i]] for a non-negative [i]: raises [IndexError] out of range. *)
Definition getitem (l : list string) (i : nat) : exn + string :=
  match l !! i with
  | Some x => inr x
  | None => inl IndexError
  end.

(** [sep.join(l)]. *)
Definition join (sep : string) (l : list string) : string :=
  String.concat sep l.

(** [s[:1]]: the first character as a string, or the empty string. *)
Definition slice_to_1 (s : string) : string := String.substring 0 1 s.

(** [str(b)] for a boolean. *)
Definition str_of_bool (b : bool) : string := if b then "True" else "False".

(** ** skadoo.utils *)

Module utils.

(** Modelled from the spec: [utils.get_command_parts] is not among the
    sources.  The token source exposes the argument list of the process as
    a sequence of strings, program name excluded; the computation returns
    the vector it runs against. *)
Definition get_command_parts : Cmd (list string) := fun argv => inr argv.

(** Modelled from the spec: the lowercase letter of a capital, for
    [utils.get_name_parts] below, which is not among the sources. *)
Definition lower_ascii (c : ascii) : ascii :=
  let n := nat_of_ascii c in
  if (65 <=? n) && (n <=? 90) then ascii_of_nat (n + 32) else c.

(** Modelled from the spec: [str.lower], letter by letter, for
    [utils.get_name_parts] below. *)
Fixpoint lower (s : string) : string :=
  match s with
  | EmptyString => EmptyString
  | String c s' => String (lower_ascii c) (lower s')
  end.

(** Modelled from the spec: [utils.get_name_parts] is not among the
    sources.  It decomposes a human-readable flag name into an ordered
    sequence of lowercase word parts: the name is split on whitespace, word
    order kept, repeated words kept. *)
Definition get_name_parts (name : string) : list string :=
  String.words (lower name).

(** Modelled from the spec: [utils.is_called] is not among the sources.
    The flag is present when the long form is in the tokens or the short
    form is in the tokens, membership being by equality of strings. *)
Definition is_called (full abbreviation : string) : Cmd bool :=
  let* parts := get_command_parts in
  ret (contains full parts || contains abbreviation parts).

End utils.

(** ** The Flag record *)

Record Flag : Type := mkFlag {
  name : string;
  flag : string;
  description : string;
  called : bool;
  short : string;
  value : string;
  empty : bool
}.

(** [Flag.validate]: an empty flag must hold the empty value. *)
Definition validate (self : Flag) : exn + unit :=
  if empty self && negb (String.eqb (value self) "") then
    inl (ValueError ("Cannot set value (" +:+ value self
                       +:+ ") for empty flag (" +:+ flag self +:+ ")"))
  else inr tt.

(** [Flag.__str__]. *)
Definition to_str (self : Flag) : string :=
  join (String "010" " ")
    [ "Flag (" +:+ flag self +:+ ")";
      "Short (" +:+ short self +:+ ")";
      "Name: " +:+ name self;
      "Empty Arg: " +:+ str_of_bool (empty self);
      "Description: " +:+ description self ].

(** ** parse_flag *)

Definition parse_flag (flag short : string) (empty : bool) : Cmd string :=
  let index0 : option nat := None in
  let* parts := utils.get_command_parts in
  if negb (contains flag parts) && negb (contains short parts) then
    ret "False"
  else if empty then
    ret "True"
  else
    let* index1 := (if contains flag parts
                    then let* i := lift (index parts flag) in ret (Some i)
                    else ret index0) in
    let* index2 := (if contains short parts
                    then let* i := lift (index parts short) in ret (Some i)
                    else ret index1) in
    match index2 with
    | None => raise TypeError
    | Some i => lift (getitem parts (i + 1))
    end.

(** ** create_flag *)

(** Lines 110-116: the long and short forms, derived from the name's parts
    when the caller passes the empty string. *)
Definition derive_flag (name flag : string) : string :=
  let flag_parts := utils.get_name_parts name in
  if String.eqb flag "" then "--" +:+ join "-" flag_parts else flag.

Definition derive_short (name short : string) : string :=
  let flag_parts := utils.get_name_parts name in
  if String.eqb short "" then "-" +:+ join "" (map slice_to_1 flag_parts)
  else short.

Definition create_flag
    (name flag description short value : string) (empty : bool) : Cmd Flag :=
  let flag := derive_flag name flag in
  let short := derive_short name short in
  let* called := utils.is_called flag short in
  let* value := (if called : bool then parse_flag flag short empty else ret value) in
  let result := mkFlag name flag description called short value empty in
  let* _ := lift (validate result) in
  ret result.

(** ** The derivation in the words of the specification *)

(** The word parts joined with "-". *)
Fixpoint dashed (parts : list string) : string :=
  match parts with
  | [] => ""
  | w :: ws =>
      match ws with
      | [] => w
      | _ :: _ => w +:+ "-" +:+ dashed ws
      end
  end.

(** The first letter of each word part, in order. *)
Fixpoint initials (parts : list string) : string :=
  match parts with
  | [] => ""
  | EmptyString :: ws => initials ws
  | String c _ :: ws => String c (initials ws)
  end.

(** ** Command lines used as examples *)

(** Both forms of the flag "out", each followed by a different token. *)
Definition argv_both_forms : list string := ["--out"; "a"; "-o"; "b"].

(** The long form of the flag "out" twice, each time followed by a
    different token. *)
Definition argv_repeated_long : list string := ["--out"; "a"; "--out"; "b"].

(** ** The module over helpers that need not be functions *)

(** [parse_flag] and [create_flag] once more, line for line, over any monad
    and any three helpers standing for [utils.get_command_parts],
    [utils.get_name_parts] and [utils.is_called]: nothing is assumed of what
    the helpers answer, nor that they answer the same when called again. *)
Section Program.

Variable M : Type -> Type.
Variable mret : forall A, A -> M A.
Variable mbind : forall A B, M A -> (A -> M B) -> M B.
Variable mlift : forall A, exn + A -> M A.
Variable get_command_parts : M (list string).
Variable get_name_parts : string -> M (list string).
Variable is_called : string -> string -> M bool.

Local Notation "'do' x := m 'in' k" := (mbind _ _ m (fun x => k))
  (at level 10, x name, m at level 100, k at level 200).

Definition parse_flag_in (flag short : string) (empty : bool) : M string :=
  let index0 : option nat := None in
  do parts := get_command_parts in
  if negb (contains flag parts) && negb (contains short parts) then
    mret _ "False"
  else if empty then
    mret _ "True"
  else
    do index1 := (if contains flag parts
                  then do i := mlift _ (index parts flag) in mret _ (Some i)
                  else mret _ index0) in
    do index2 := (if contains short parts
                  then do i := mlift _ (index parts short) in mret _ (Some i)
                  else mret _ index1) in
    match index2 with
    | None => mlift _ (inl TypeError)
    | Some i => mlift _ (getitem parts (i + 1))
    end.

Definition create_flag_in
    (name flag description short value : string) (empty : bool) : M Flag :=
  do flag_parts := get_name_parts name in
  let flag :=
    if String.eqb flag "" then "--" +:+ join "-" flag_parts else flag in
  let short :=
    if String.eqb short "" then "-" +:+ join "" (map slice_to_1 flag_parts)
    else short in
  do called := is_called flag short in
  do value := (if called : bool then parse_flag_in flag short empty
               else mret _ value) in
  let result := mkFlag name flag description called short value empty in
  do _ := mlift _ (validate result) in
  mret _ result.

End Program.

(** A run relates the command line to every outcome it may have. *)
Definition Run (A : Type) : Type := list string -> exn + A -> Prop.

Definition run_ret (A : Type) (a : A) : Run A := fun _ o => o = inr a.

Definition run_lift (A : Type) (r : exn + A) : Run A := fun _ o => o = r.

Definition run_bind (A B : Type) (m : Run A) (k : A -> Run B) : Run B :=
  fun argv o =>
    exists oa, m argv oa /\
               match oa with
               | inl e => o = inl e
               | inr a => k a argv o
               end.

(** A run with at most one outcome on each command line. *)
Definition functional {A} (m : Run A) : Prop :=
  forall argv o1 o2, m argv o1 -> m argv o2 -> o1 = o2.

(** The run of a computation: its one outcome. *)
Definition graph {A} (c : Cmd A) : Run A := fun argv o => o = c argv.

(** [create_flag] over helpers that are runs. *)
Definition create_flag_run
    (get_command_parts : Run (list string))
    (get_name_parts : string -> Run (list string))
    (is_called : string -> string -> Run bool) :
    string -> string -> string -> string -> string -> bool -> Run Flag :=
  create_flag_in Run run_ret run_bind run_lift
    get_command_parts get_name_parts is_called.

(** ** Strings of one line *)

(** The string holds no line feed. *)
Fixpoint no_newline (s : string) : bool :=
  match s with
  | EmptyString => true
  | String c s' => negb (Ascii.eqb c "010") && no_newline s'
  end.

(** ** Running the computations *)

(** Membership and non-membership in a literal list, by evaluation. *)
Ltac by_computation :=
  match goal with
  | |- ?P => refine (@bool_decide_unpack P _ _); vm_compute; exact I
  end.

Lemma contains_true x l : contains x l = true <-> x ∈ l.
Proof. unfold contains. apply bool_decide_eq_true. Qed.

Lemma contains_false x l : contains x l = false <-> x ∉ l.
Proof. unfold contains. apply bool_decide_eq_false. Qed.

Lemma find_index_first x pre post :
  x ∉ pre -> find_index x (pre ++ x :: post) = Some (length pre).
Proof.
  induction pre as [|y pre IH]; intros Hx; simpl.
  - now rewrite String.eqb_refl.
  - apply not_elem_of_cons in Hx as [Hne Hpre].
    destruct (String.eqb_spec y x) as [->|_]; [congruence|].
    now rewrite IH.
Qed.

Lemma find_index_elem x l : x ∈ l -> is_Some (find_index x l).
Proof.
  induction 1 as [y l|y z l _ IH]; simpl.
  - rewrite String.eqb_refl. eauto.
  - destruct (String.eqb z y); [eauto|].
    destruct IH as [i ->]. simpl. eauto.
Qed.

Lemma find_index_lookup x l i : find_index x l = Some i -> l !! i = Some x.
Proof.
  revert i. induction l as [|y l IH]; intros i; simpl; [discriminate|].
  destruct (String.eqb_spec y x) as [->|_].
  - now intros [= <-].
  - destruct (find_index x l) as [j|]; simpl; [|discriminate].
    intros [= <-]. simpl. now apply IH.
Qed.

Lemma lookup_after (pre : list string) x y post :
  (pre ++ x :: y :: post) !! (length pre + 1) = Some y.
Proof.
  rewrite (cons_middle x pre), app_assoc.
  apply list_lookup_middle. rewrite length_app. simpl. lia.
Qed.

Lemma contains_find_index x l :
  contains x l = true -> exists i, find_index x l = Some i.
Proof. intros H. apply contains_true, find_index_elem in H. exact H. Qed.

Lemma find_index_contains x l i : find_index x l = Some i -> contains x l = true.
Proof.
  intros H. apply contains_true.
  eapply list_elem_of_lookup_2, find_index_lookup, H.
Qed.

(** [parse_flag] on a flag that takes a value: the short form's position is
    used whenever the short form occurs. *)
Lemma parse_flag_short f s parts i :
  find_index s parts = Some i ->
  parse_flag f s false parts = getitem parts (i + 1).
Proof.
  intros Hi. pose proof (find_index_contains _ _ _ Hi) as Hs.
  unfold parse_flag, bind, ret, lift, utils.get_command_parts, index.
  rewrite Hs, Hi, andb_false_r.
  destruct (contains f parts) eqn:Hf; [|reflexivity].
  destruct (contains_find_index _ _ Hf) as [j ->]. reflexivity.
Qed.

(** The long form's position is used when the short form does not occur. *)
Lemma parse_flag_long f s parts i :
  contains s parts = false ->
  find_index f parts = Some i ->
  parse_flag f s false parts = getitem parts (i + 1).
Proof.
  intros Hs Hi. pose proof (find_index_contains _ _ _ Hi) as Hf.
  unfold parse_flag, bind, ret, lift, utils.get_command_parts, index.
  rewrite Hs, Hf, Hi. reflexivity.
Qed.

Lemma parse_flag_empty f s parts :
  contains f parts || contains s parts = true ->
  parse_flag f s true parts = inr "True".
Proof.
  intros H. unfold parse_flag, bind, ret, utils.get_command_parts.
  apply orb_true_iff in H as [-> | ->]; simpl; [reflexivity|].
  now rewrite andb_false_r.
Qed.

(** [create_flag] when neither form is on the command line: [parse_flag] is
    not run and the caller's value reaches validation. *)
Lemma create_flag_absent n f d s v e tokens :
  contains (derive_flag n f) tokens = false ->
  contains (derive_short n s) tokens = false ->
  create_flag n f d s v e tokens =
  let r := mkFlag n (derive_flag n f) d false (derive_short n s) v e in
  match validate r with inl x => inl x | inr _ => inr r end.
Proof.
  intros Hf Hs.
  unfold create_flag, utils.is_called, utils.get_command_parts, bind, ret, lift.
  cbv zeta. rewrite Hf, Hs. reflexivity.
Qed.

(** [create_flag] when one of the forms is on the command line. *)
Lemma create_flag_called n f d s v e tokens :
  contains (derive_flag n f) tokens || contains (derive_short n s) tokens = true ->
  create_flag n f d s v e tokens =
  match parse_flag (derive_flag n f) (derive_short n s) e tokens with
  | inl x => inl x
  | inr val =>
      let r := mkFlag n (derive_flag n f) d true (derive_short n s) val e in
      match validate r with inl x => inl x | inr _ => inr r end
  end.
Proof.
  intros H.
  unfold create_flag, utils.is_called, utils.get_command_parts, bind, ret, lift.
  cbv zeta. rewrite H. reflexivity.
Qed.

(** A present flag declared empty is never built: [parse_flag] answers
    "True", which [validate] then refuses as a value set on an empty flag. *)
Lemma create_flag_empty_called_raises n f d s v tokens :
  derive_flag n f ∈ tokens \/ derive_short n s ∈ tokens ->
  create_flag n f d s v true tokens =
  inl (ValueError ("Cannot set value (True) for empty flag ("
                     +:+ derive_flag n f +:+ ")")).
Proof.
  intros H.
  assert (Hc : contains (derive_flag n f) tokens
               || contains (derive_short n s) tokens = true).
  { apply orb_true_iff. now rewrite !contains_true. }
  rewrite (create_flag_called _ _ _ _ _ _ _ Hc), (parse_flag_empty _ _ _ Hc).
  reflexivity.
Qed.

(** What a returned record holds besides its value. *)
Lemma create_flag_fields n f d s v e tokens r :
  create_flag n f d s v e tokens = inr r ->
  name r = n /\ flag r = derive_flag n f /\ description r = d /\
  called r = contains (derive_flag n f) tokens
             || contains (derive_short n s) tokens /\
  short r = derive_short n s /\ empty r = e.
Proof.
  unfold create_flag, utils.is_called, utils.get_command_parts, bind, ret, lift.
  cbv zeta.
  destruct (if contains (derive_flag n f) tokens
               || contains (derive_short n s) tokens
            then _ else _) as [x|val]; [discriminate|].
  destruct (validate _); [discriminate|].
  intros [= <-]. simpl. tauto.
Qed.

Lemma join_dashed parts : join "-" parts = dashed parts.
Proof.
  unfold join. induction parts as [|w ws IH]; [reflexivity|].
  destruct ws as [|w' ws]; [reflexivity|].
  simpl in *. now rewrite IH.
Qed.

Lemma slice_to_1_cons c w : slice_to_1 (String c w) = String c "".
Proof. unfold slice_to_1. simpl. now destruct w. Qed.

Lemma join_initials parts : join "" (map slice_to_1 parts) = initials parts.
Proof.
  unfold join. induction parts as [|w ws IH]; [reflexivity|].
  destruct ws as [|w' ws].
  - destruct w as [|c w]; [reflexivity|]. simpl. now rewrite slice_to_1_cons.
  - change (slice_to_1 w +:+ "" +:+ String.concat "" (map slice_to_1 (w' :: ws))
            = initials (w :: w' :: ws)).
    rewrite IH. destruct w as [|c w]; [reflexivity|].
    now rewrite slice_to_1_cons.
Qed.

(** ** Empty flags *)

(** C1: the claim is that a flag declared empty whose long form is on the
    command line is built with [called = true] and [value = "True"], as for
    the name "dry run" against the single token "--dry-run".  On that input
    the long and short forms are derived as claimed and the flag is found,
    but [create_flag] raises [ValueError]: the record is validated after
    [parse_flag] has set its value to "True". *)
Theorem dry_run_switch_raises :
  derive_flag "dry run" "" = "--dry-run" /\
  derive_short "dry run" "" = "-dr" /\
  utils.is_called "--dry-run" "-dr" ["--dry-run"] = inr true /\
  parse_flag "--dry-run" "-dr" true ["--dry-run"] = inr "True" /\
  create_flag "dry run" "" "" "" "" true ["--dry-run"] =
  inl (ValueError "Cannot set value (True) for empty flag (--dry-run)").
Proof. repeat split; reflexivity. Qed.

(** C5: a flag declared empty, given a non-empty value by the caller and
    absent from the command line, is refused with a [ValueError] whose
    message names the value and the long form; no record is returned. *)
Theorem empty_flag_with_value_rejected n f d s v tokens :
  v <> "" ->
  derive_flag n f ∉ tokens ->
  derive_short n s ∉ tokens ->
  create_flag n f d s v true tokens =
  inl (ValueError ("Cannot set value (" +:+ v +:+ ") for empty flag ("
                     +:+ derive_flag n f +:+ ")")).
Proof.
  intros Hv Hf Hs. apply contains_false in Hf, Hs.
  rewrite (create_flag_absent _ _ _ _ _ _ _ Hf Hs).
  unfold validate. cbn.
  destruct (String.eqb_spec v "") as [->|_]; [congruence|reflexivity].
Qed.

Lemma empty_flag_with_value_rejected_witness :
  "yes" <> "" /\
  (derive_flag "dry run" "" ∉ ["build"; "-v"]) /\
  (derive_short "dry run" "" ∉ ["build"; "-v"]) /\
  create_flag "dry run" "" "" "" "yes" true ["build"; "-v"] =
  inl (ValueError "Cannot set value (yes) for empty flag (--dry-run)").
Proof.
  assert (H1 : "yes" <> "") by discriminate.
  assert (H2 : derive_flag "dry run" "" ∉ ["build"; "-v"]) by by_computation.
  assert (H3 : derive_short "dry run" "" ∉ ["build"; "-v"]) by by_computation.
  refine (conj H1 (conj H2 (conj H3 _))).
  exact (empty_flag_with_value_rejected "dry run" "" "" "" "yes"
           ["build"; "-v"] H1 H2 H3).
Defined.

(** ** Absent flags *)

(** C3: the claim is that a flag absent from the command line is built with
    [called = false] and [value = "False"].  With the arguments left at
    their defaults and no token at all, the record is built with
    [called = false] and the empty string as its value: [parse_flag], which
    answers "False" for an absent flag, is only run for a flag that is
    called. *)
Theorem absent_flag_keeps_default_value :
  create_flag "output" "" "" "" "" false [] =
  inr (mkFlag "output" "--output" "" false "-o" "" false) /\
  parse_flag "--output" "-o" false [] = inr "False".
Proof. split; reflexivity. Qed.

(** ** Flags that take a value *)

(** C4, as amended: for a flag that takes a value, when the first
    occurrence of the form that is matched (the short form if it occurs,
    the long form otherwise), which is the position [list.index] gives, is
    the last token of the command line, the subscript in [parse_flag] raises
    [IndexError] and so does [create_flag]: no record is returned. *)
Theorem value_missing_raises n f d s v tokens m i :
  m = derive_short n s \/ (m = derive_flag n f /\ derive_short n s ∉ tokens) ->
  index tokens m = inr i ->
  i + 1 = length tokens ->
  parse_flag (derive_flag n f) (derive_short n s) false tokens
  = inl IndexError /\
  create_flag n f d s v false tokens = inl IndexError.
Proof.
  intros Hcase Hidx Hlast.
  assert (Hi : find_index m tokens = Some i).
  { unfold index in Hidx. destruct (find_index m tokens); congruence. }
  assert (Hnone : getitem tokens (i + 1) = inl IndexError).
  { unfold getitem. rewrite lookup_ge_None_2; [reflexivity|lia]. }
  assert (Hp : parse_flag (derive_flag n f) (derive_short n s) false tokens
               = inl IndexError).
  { destruct Hcase as [-> | [-> Hs]].
    - now rewrite (parse_flag_short _ _ _ _ Hi).
    - apply contains_false in Hs.
      now rewrite (parse_flag_long _ _ _ _ Hs Hi). }
  split; [exact Hp|].
  rewrite create_flag_called, Hp; [reflexivity|].
  apply find_index_contains in Hi. apply orb_true_iff.
  destruct Hcase as [-> | [-> _]]; auto.
Qed.

Lemma value_missing_raises_witness :
  ("--output" = derive_short "output" "" \/
   ("--output" = derive_flag "output" "" /\
    derive_short "output" "" ∉ ["build"; "-v"; "--output"])) /\
  index ["build"; "-v"; "--output"] "--output" = inr 2 /\
  2 + 1 = length ["build"; "-v"; "--output"] /\
  parse_flag (derive_flag "output" "") (derive_short "output" "") false
    ["build"; "-v"; "--output"] = inl IndexError /\
  create_flag "output" "" "" "" "" false ["build"; "-v"; "--output"]
  = inl IndexError.
Proof.
  assert (H1 : "--output" = derive_short "output" "" \/
               ("--output" = derive_flag "output" "" /\
                derive_short "output" "" ∉ ["build"; "-v"; "--output"])).
  { right. split; [reflexivity | by_computation]. }
  assert (H2 : index ["build"; "-v"; "--output"] "--output" = inr 2)
    by reflexivity.
  assert (H3 : 2 + 1 = length ["build"; "-v"; "--output"]) by reflexivity.
  refine (conj H1 (conj H2 (conj H3 _))).
  exact (value_missing_raises "output" "" "" "" "" ["build"; "-v"; "--output"]
           "--output" 2 H1 H2 H3).
Defined.

(** C4, as stated, fails when the form that is the last token also occurs
    earlier: on "--output", "a", "--output" the short form does not occur,
    the long form is the last token and nothing follows it, yet
    [list.index] gives position 0 and a record with the value "a" is
    returned.  Likewise on "-o", "x", "--output" the long form is the last
    token, but the position of the short form is used and a record with the
    value "x" is returned. *)
Lemma form_last_but_record_returned :
  last ["--output"; "a"; "--output"] = Some (derive_flag "output" "") /\
  (derive_short "output" "" ∉ ["--output"; "a"; "--output"]) /\
  index ["--output"; "a"; "--output"] (derive_flag "output" "") = inr 0 /\
  create_flag "output" "" "" "" "" false ["--output"; "a"; "--output"] =
  inr (mkFlag "output" "--output" "" true "-o" "a" false) /\
  last ["-o"; "x"; "--output"] = Some (derive_flag "output" "") /\
  create_flag "output" "" "" "" "" false ["-o"; "x"; "--output"] =
  inr (mkFlag "output" "--output" "" true "-o" "x" false).
Proof.
  split; [reflexivity|]. split; [by_computation|].
  repeat split.
Qed.

(** The amended statement, for the short form at the end of a command line
    that also holds the long form followed by a token. *)
Example value_missing_short_last :
  create_flag "output" "" "" "" "" false ["--output"; "a.txt"; "-o"]
  = inl IndexError.
Proof. reflexivity. Qed.

(** C8, as amended: for a flag that takes a value, when the first occurrence
    of the long form on the command line is immediately followed by a token
    [x] and the short form does not occur, the record is returned with
    [called = true] and [value = x]. *)
Theorem long_form_value n f d s v pre x post :
  derive_flag n f ∉ pre ->
  derive_short n s ∉ pre ++ derive_flag n f :: x :: post ->
  create_flag n f d s v false (pre ++ derive_flag n f :: x :: post) =
  inr (mkFlag n (derive_flag n f) d true (derive_short n s) x false).
Proof.
  intros Hf Hs. apply contains_false in Hs.
  pose proof (find_index_first _ _ (x :: post) Hf) as Hi.
  rewrite create_flag_called.
  - rewrite (parse_flag_long _ _ _ _ Hs Hi).
    unfold getitem. rewrite lookup_after. reflexivity.
  - apply find_index_contains in Hi. now rewrite Hi.
Qed.

Lemma long_form_value_witness :
  (derive_flag "output" "" ∉ ["build"]) /\
  (derive_short "output" ""
     ∉ ["build"] ++ derive_flag "output" "" :: "result.txt" :: ["-v"]) /\
  create_flag "output" "" "" "" "" false
    (["build"] ++ derive_flag "output" "" :: "result.txt" :: ["-v"]) =
  inr (mkFlag "output" (derive_flag "output" "") "" true
         (derive_short "output" "") "result.txt" false).
Proof.
  assert (H1 : derive_flag "output" "" ∉ ["build"]) by by_computation.
  assert (H2 : derive_short "output" ""
                 ∉ ["build"] ++ derive_flag "output" "" :: "result.txt" :: ["-v"])
    by by_computation.
  refine (conj H1 (conj H2 _)).
  exact (long_form_value "output" "" "" "" "" ["build"] "result.txt" ["-v"]
           H1 H2).
Defined.

(** C8, as stated, fails when the long form is repeated: on
    [argv_repeated_long] the long form "--out" is immediately followed by
    "b" (its second occurrence) and the short form "-o" does not occur, yet
    the value of the record is "a", the token after the first occurrence. *)
Lemma repeated_long_form_first_occurrence :
  argv_repeated_long = ["--out"; "a"] ++ "--out" :: "b" :: [] /\
  ("-o" ∉ argv_repeated_long) /\
  exists r,
    create_flag "out" "" "" "" "" false argv_repeated_long = inr r /\
    flag r = "--out" /\ short r = "-o" /\ empty r = false /\
    value r = "a" /\ value r <> "b".
Proof.
  split; [reflexivity|]. split; [by_computation|].
  exists (mkFlag "out" "--out" "" true "-o" "a" false).
  repeat split. discriminate.
Qed.

(** C2, as amended: for a flag that takes a value, when both forms occur on
    the command line the position of the short form decides: if the first
    occurrence of the short form is immediately followed by a token [x], the
    record is returned with [value = x], wherever the long form occurs. *)
Theorem short_form_takes_precedence n f d s v pre x post :
  derive_flag n f ∈ pre ++ derive_short n s :: x :: post ->
  derive_short n s ∉ pre ->
  create_flag n f d s v false (pre ++ derive_short n s :: x :: post) =
  inr (mkFlag n (derive_flag n f) d true (derive_short n s) x false).
Proof.
  intros _ Hs.
  pose proof (find_index_first _ _ (x :: post) Hs) as Hi.
  rewrite create_flag_called.
  - rewrite (parse_flag_short _ _ _ _ Hi).
    unfold getitem. rewrite lookup_after. reflexivity.
  - apply find_index_contains in Hi. rewrite Hi. apply orb_true_r.
Qed.

Lemma short_form_takes_precedence_witness :
  (derive_flag "out" "" ∈ ["--out"; "a"] ++ derive_short "out" "" :: "b" :: []) /\
  (derive_short "out" "" ∉ ["--out"; "a"]) /\
  create_flag "out" "" "" "" "" false
    (["--out"; "a"] ++ derive_short "out" "" :: "b" :: []) =
  inr (mkFlag "out" (derive_flag "out" "") "" true (derive_short "out" "")
         "b" false).
Proof.
  assert (H1 : derive_flag "out" ""
                 ∈ ["--out"; "a"] ++ derive_short "out" "" :: "b" :: [])
    by by_computation.
  assert (H2 : derive_short "out" "" ∉ ["--out"; "a"]) by by_computation.
  refine (conj H1 (conj H2 _)).
  exact (short_form_takes_precedence "out" "" "" "" "" ["--out"; "a"] "b" []
           H1 H2).
Defined.

(** C2, as stated, fails: on [argv_both_forms] both "--out" and "-o" occur,
    the long form is first found at position 0 and the token after it is
    "a", yet the value of the record is "b", the token after the short
    form. *)
Lemma both_forms_short_position_used :
  "--out" ∈ argv_both_forms /\
  "-o" ∈ argv_both_forms /\
  index argv_both_forms "--out" = inr 0 /\
  getitem argv_both_forms (0 + 1) = inr "a" /\
  exists r,
    create_flag "out" "" "" "" "" false argv_both_forms = inr r /\
    flag r = "--out" /\ short r = "-o" /\ empty r = false /\
    value r = "b" /\ value r <> "a".
Proof.
  split; [by_computation|]. split; [by_computation|].
  split; [reflexivity|]. split; [reflexivity|].
  exists (mkFlag "out" "--out" "" true "-o" "b" false).
  repeat split. discriminate.
Qed.

(** ** Derived forms *)

(** C6: when the name splits into the word parts [parts] and neither form is
    overridden, the long form is "--" followed by the parts joined with "-"
    and the short form is "-" followed by the first letter of each part, in
    order; these are the forms of every record built from the name; a name
    of a single word [w] gives "--w" and "-" followed by the first letter of
    [w]. *)
Theorem derived_forms n parts :
  utils.get_name_parts n = parts ->
  derive_flag n "" = "--" +:+ dashed parts /\
  derive_short n "" = "-" +:+ initials parts /\
  (forall d v e tokens r,
      create_flag n "" d "" v e tokens = inr r ->
      flag r = "--" +:+ dashed parts /\ short r = "-" +:+ initials parts) /\
  (forall c w,
      parts = [String c w] ->
      derive_flag n "" = "--" +:+ String c w /\
      derive_short n "" = String "-" (String c "")).
Proof.
  intros Hparts.
  assert (Hf : derive_flag n "" = "--" +:+ dashed parts).
  { unfold derive_flag. rewrite Hparts, join_dashed. reflexivity. }
  assert (Hs : derive_short n "" = "-" +:+ initials parts).
  { unfold derive_short. rewrite Hparts, join_initials. reflexivity. }
  split; [exact Hf|]. split; [exact Hs|]. split.
  - intros d v e tokens r Hr. apply create_flag_fields in Hr.
    destruct Hr as (_ & -> & _ & _ & -> & _). now split.
  - intros c w Hw. rewrite Hf, Hs, Hw. now split.
Qed.

Lemma derived_forms_witness :
  utils.get_name_parts "Dry run" = ["dry"; "run"] /\
  derive_flag "Dry run" "" = "--" +:+ dashed ["dry"; "run"] /\
  derive_short "Dry run" "" = "-" +:+ initials ["dry"; "run"] /\
  (forall d v e tokens r,
      create_flag "Dry run" "" d "" v e tokens = inr r ->
      flag r = "--" +:+ dashed ["dry"; "run"] /\
      short r = "-" +:+ initials ["dry"; "run"]) /\
  (forall c w,
      ["dry"; "run"] = [String c w] ->
      derive_flag "Dry run" "" = "--" +:+ String c w /\
      derive_short "Dry run" "" = String "-" (String c "")).
Proof.
  assert (H : utils.get_name_parts "Dry run" = ["dry"; "run"]) by reflexivity.
  refine (conj H _).
  exact (derived_forms "Dry run" ["dry"; "run"] H).
Defined.

(** The forms of the specification's examples. *)
Example derived_forms_dry_run :
  derive_flag "dry run" "" = "--dry-run" /\ derive_short "dry run" "" = "-dr".
Proof. split; reflexivity. Qed.

Example derived_forms_output :
  derive_flag "output" "" = "--output" /\ derive_short "output" "" = "-o".
Proof. split; reflexivity. Qed.

(** ** Presence *)

(** C7: the presence test answers true exactly when the long form or the
    short form is an element of the token list, elements being compared by
    equality of strings; it always answers and depends on nothing but its
    arguments and the token list; the [called] field of every record built
    is that answer. *)
Theorem called_iff_either_form n f d s v e tokens :
  (exists b,
      utils.is_called (derive_flag n f) (derive_short n s) tokens = inr b /\
      (b = true <-> derive_flag n f ∈ tokens \/ derive_short n s ∈ tokens)) /\
  (forall r,
      create_flag n f d s v e tokens = inr r ->
      (called r = true <-> flag r ∈ tokens \/ short r ∈ tokens)).
Proof.
  split.
  - eexists. split; [reflexivity|].
    rewrite orb_true_iff, !contains_true. reflexivity.
  - intros r Hr. apply create_flag_fields in Hr.
    destruct Hr as (_ & -> & _ & -> & -> & _).
    rewrite orb_true_iff, !contains_true. reflexivity.
Qed.

Lemma called_iff_either_form_witness :
  create_flag "output" "" "" "" "" false ["-o"; "result.txt"] =
  inr (mkFlag "output" "--output" "" true "-o" "result.txt" false) /\
  (called (mkFlag "output" "--output" "" true "-o" "result.txt" false) = true
   <-> "--output" ∈ ["-o"; "result.txt"] \/ "-o" ∈ ["-o"; "result.txt"]).
Proof.
  assert (H : create_flag "output" "" "" "" "" false ["-o"; "result.txt"] =
              inr (mkFlag "output" "--output" "" true "-o" "result.txt" false))
    by reflexivity.
  refine (conj H _).
  exact (proj2 (called_iff_either_form "output" "" "" "" "" false
                  ["-o"; "result.txt"]) _ H).
Defined.

(** A prefix of a token, or a token with a different case, is no match. *)
Example is_called_exact :
  utils.is_called "--dry" "-d" ["--dry-run"; "-dr"; "--DRY"] = inr false.
Proof. reflexivity. Qed.

(** ** Determinism *)

Lemma functional_ret A (a : A) : functional (run_ret A a).
Proof. intros argv o1 o2 H1 H2. unfold run_ret in *. congruence. Qed.

Lemma functional_lift A (r : exn + A) : functional (run_lift A r).
Proof. intros argv o1 o2 H1 H2. unfold run_lift in *. congruence. Qed.

Lemma functional_graph A (c : Cmd A) : functional (graph c).
Proof. intros argv o1 o2 H1 H2. unfold graph in *. congruence. Qed.

(** Sequencing adds no outcome of its own. *)
Lemma functional_bind A B (m : Run A) (k : A -> Run B) :
  functional m -> (forall a, functional (k a)) ->
  functional (run_bind A B m k).
Proof.
  intros Hm Hk argv o1 o2 (oa1 & H1 & K1) (oa2 & H2 & K2).
  rewrite (Hm _ _ _ H1 H2) in K1. destruct oa2 as [x|a].
  - congruence.
  - exact (Hk a _ _ _ K1 K2).
Qed.

Lemma parse_flag_in_functional (gcp : Run (list string)) f s e :
  functional gcp ->
  functional (parse_flag_in Run run_ret run_bind run_lift gcp f s e).
Proof.
  intros Hg. unfold parse_flag_in. apply functional_bind; [exact Hg|].
  intros parts.
  destruct (negb (contains f parts) && negb (contains s parts));
    [apply functional_ret|].
  destruct e; [apply functional_ret|].
  apply functional_bind.
  { destruct (contains f parts); [|apply functional_ret].
    apply functional_bind; [apply functional_lift|].
    intros i. apply functional_ret. }
  intros index1. apply functional_bind.
  { destruct (contains s parts); [|apply functional_ret].
    apply functional_bind; [apply functional_lift|].
    intros i. apply functional_ret. }
  intros [i|]; apply functional_lift.
Qed.

(** A run over the graphs of computations is the graph of the computation. *)
Lemma graph_bind A B (m : Run A) (c : Cmd A) (k : A -> Run B)
    (k' : A -> Cmd B) :
  (forall argv o, m argv o <-> o = c argv) ->
  (forall a argv o, k a argv o <-> o = k' a argv) ->
  forall argv o, run_bind A B m k argv o <-> o = bind c k' argv.
Proof.
  intros Hm Hk argv o. unfold run_bind, bind. split.
  - intros (oa & H & K). apply Hm in H. subst oa.
    destruct (c argv) as [x|a]; [exact K | now apply Hk].
  - intros ->. exists (c argv). split; [now apply Hm|].
    destruct (c argv) as [x|a]; [reflexivity | now apply Hk].
Qed.

Lemma parse_flag_in_graph f s e argv o :
  parse_flag_in Run run_ret run_bind run_lift
    (graph utils.get_command_parts) f s e argv o
  <-> o = parse_flag f s e argv.
Proof.
  revert argv o. unfold parse_flag_in, parse_flag.
  apply graph_bind; [reflexivity|].
  intros parts.
  destruct (negb (contains f parts) && negb (contains s parts));
    [reflexivity|].
  destruct e; [reflexivity|].
  apply graph_bind.
  { destruct (contains f parts); [|reflexivity].
    apply graph_bind; reflexivity. }
  intros index1. apply graph_bind.
  { destruct (contains s parts); [|reflexivity].
    apply graph_bind; reflexivity. }
  intros [i|]; reflexivity.
Qed.

(** With the helpers of [utils] as modelled, the runs of [create_flag_run]
    are the one outcome of [create_flag]. *)
Lemma create_flag_run_graph n f d s v e argv o :
  create_flag_run (graph utils.get_command_parts)
    (fun nm => graph (ret (utils.get_name_parts nm)))
    (fun fl sh => graph (utils.is_called fl sh)) n f d s v e argv o
  <-> o = create_flag n f d s v e argv.
Proof.
  change (create_flag n f d s v e argv)
    with (create_flag_in Cmd (@ret) (@bind) (@lift) utils.get_command_parts
            (fun nm => ret (utils.get_name_parts nm)) utils.is_called
            n f d s v e argv).
  revert argv o. unfold create_flag_run, create_flag_in.
  apply graph_bind; [reflexivity|]. intros flag_parts.
  apply graph_bind; [reflexivity|]. intros c.
  apply graph_bind.
  { destruct c; [|reflexivity]. intros argv o. apply parse_flag_in_graph. }
  intros val. apply graph_bind; reflexivity.
Qed.

(** C9: whatever the three helpers of [utils] answer, as long as each of
    them gives one answer for the same arguments against the same token
    list, two constructions from the same arguments against the same token
    list have the same outcome, and when they return records every field of
    the one equals the same field of the other: [create_flag] and
    [parse_flag] bring in no other source of difference. *)
Theorem construction_is_deterministic
    (get_command_parts : Run (list string))
    (get_name_parts : string -> Run (list string))
    (is_called : string -> string -> Run bool)
    n f d s v e tokens o1 o2 :
  functional get_command_parts ->
  (forall nm, functional (get_name_parts nm)) ->
  (forall fl sh, functional (is_called fl sh)) ->
  create_flag_run get_command_parts get_name_parts is_called
    n f d s v e tokens o1 ->
  create_flag_run get_command_parts get_name_parts is_called
    n f d s v e tokens o2 ->
  o1 = o2 /\
  forall r1 r2, o1 = inr r1 -> o2 = inr r2 ->
    name r1 = name r2 /\ flag r1 = flag r2 /\
    description r1 = description r2 /\ called r1 = called r2 /\
    short r1 = short r2 /\ value r1 = value r2 /\ empty r1 = empty r2.
Proof.
  intros Hg Hn Hc H1 H2.
  assert (Hfun : functional
            (create_flag_run get_command_parts get_name_parts is_called
               n f d s v e)).
  { unfold create_flag_run, create_flag_in.
    apply functional_bind; [apply Hn|]. intros flag_parts.
    apply functional_bind; [apply Hc|]. intros c.
    apply functional_bind.
    { destruct c; [now apply parse_flag_in_functional|apply functional_ret]. }
    intros val. apply functional_bind; [apply functional_lift|].
    intros _. apply functional_ret. }
  pose proof (Hfun _ _ _ H1 H2) as Heq. split; [exact Heq|].
  intros r1 r2 -> Hr2. rewrite Hr2 in Heq. injection Heq as <-.
  repeat split.
Qed.

Lemma construction_is_deterministic_witness :
  functional (graph utils.get_command_parts) /\
  (forall nm, functional (graph (ret (utils.get_name_parts nm)))) /\
  (forall fl sh, functional (graph (utils.is_called fl sh))) /\
  create_flag_run (graph utils.get_command_parts)
    (fun nm => graph (ret (utils.get_name_parts nm)))
    (fun fl sh => graph (utils.is_called fl sh))
    "output" "" "" "" "" false ["-o"; "result.txt"]
    (inr (mkFlag "output" "--output" "" true "-o" "result.txt" false)) /\
  inr (mkFlag "output" "--output" "" true "-o" "result.txt" false)
  = create_flag "output" "" "" "" "" false ["-o"; "result.txt"].
Proof.
  assert (H1 : functional (graph utils.get_command_parts))
    by apply functional_graph.
  assert (H2 : forall nm, functional (graph (ret (utils.get_name_parts nm))))
    by (intros nm; apply functional_graph).
  assert (H3 : forall fl sh, functional (graph (utils.is_called fl sh)))
    by (intros fl sh; apply functional_graph).
  assert (H4 : create_flag_run (graph utils.get_command_parts)
                 (fun nm => graph (ret (utils.get_name_parts nm)))
                 (fun fl sh => graph (utils.is_called fl sh))
                 "output" "" "" "" "" false ["-o"; "result.txt"]
                 (inr (mkFlag "output" "--output" "" true "-o" "result.txt"
                         false))).
  { apply create_flag_run_graph. reflexivity. }
  assert (H5 : create_flag_run (graph utils.get_command_parts)
                 (fun nm => graph (ret (utils.get_name_parts nm)))
                 (fun fl sh => graph (utils.is_called fl sh))
                 "output" "" "" "" "" false ["-o"; "result.txt"]
                 (create_flag "output" "" "" "" "" false
                    ["-o"; "result.txt"])).
  { apply create_flag_run_graph. reflexivity. }
  refine (conj H1 (conj H2 (conj H3 (conj H4 _)))).
  exact (proj1 (construction_is_deterministic _ _ _
                  "output" "" "" "" "" false ["-o"; "result.txt"] _ _
                  H1 H2 H3 H4 H5)).
Defined.

(** Helpers that answer differently from call to call do give two outcomes:
    with a presence test that may answer either way, the same construction
    both returns a record and raises. *)
Example unstable_helper_two_outcomes :
  create_flag_run (graph utils.get_command_parts)
    (fun nm => graph (ret (utils.get_name_parts nm)))
    (fun _ _ _ o => o = inr true \/ o = inr false)
    "output" "" "" "" "" false ["-o"]
    (inr (mkFlag "output" "--output" "" false "-o" "" false)) /\
  create_flag_run (graph utils.get_command_parts)
    (fun nm => graph (ret (utils.get_name_parts nm)))
    (fun _ _ _ o => o = inr true \/ o = inr false)
    "output" "" "" "" "" false ["-o"]
    (inl IndexError).
Proof.
  split.
  - exists (inr ["output"]). split; [reflexivity|].
    exists (inr false). split; [now right|].
    exists (inr ""). split; [reflexivity|].
    exists (inr tt). split; reflexivity.
  - exists (inr ["output"]). split; [reflexivity|].
    exists (inr true). split; [now left|].
    exists (inl IndexError). split; [|reflexivity].
    apply parse_flag_in_graph. reflexivity.
Qed.

(** ** Validation of flags that take a value *)

(** C10: validation accepts every record that is not declared empty, and a
    [ValueError] from validation means the record is declared empty; so
    [create_flag] with [empty = false] never raises [ValueError], whatever
    the caller's value and the token list: it raises [IndexError] from the
    extraction or returns a record, which holds the caller's value when the
    flag is absent. *)
Theorem value_flag_never_invalid n f d s v tokens :
  (forall r msg, validate r = inl (ValueError msg) -> empty r = true) /\
  (forall msg, create_flag n f d s v false tokens <> inl (ValueError msg)) /\
  (create_flag n f d s v false tokens = inl IndexError \/
   exists r, create_flag n f d s v false tokens = inr r /\
             empty r = false /\ validate r = inr tt) /\
  (derive_flag n f ∉ tokens -> derive_short n s ∉ tokens ->
   create_flag n f d s v false tokens =
   inr (mkFlag n (derive_flag n f) d false (derive_short n s) v false)).
Proof.
  assert (Hout : create_flag n f d s v false tokens = inl IndexError \/
    exists r, create_flag n f d s v false tokens = inr r /\
              empty r = false /\ validate r = inr tt).
  { destruct (contains (derive_flag n f) tokens
              || contains (derive_short n s) tokens) eqn:Hc.
    - rewrite (create_flag_called _ _ _ _ _ _ _ Hc).
      destruct (contains (derive_short n s) tokens) eqn:Hs.
      + destruct (contains_find_index _ _ Hs) as [i Hi].
        rewrite (parse_flag_short _ _ _ _ Hi). unfold getitem.
        destruct (tokens !! (i + 1)); [right|left; reflexivity].
        eexists. split; [reflexivity|]. split; reflexivity.
      + rewrite orb_false_r in Hc.
        destruct (contains_find_index _ _ Hc) as [i Hi].
        rewrite (parse_flag_long _ _ _ _ Hs Hi). unfold getitem.
        destruct (tokens !! (i + 1)); [right|left; reflexivity].
        eexists. split; [reflexivity|]. split; reflexivity.
    - apply orb_false_iff in Hc as [Hf Hs].
      rewrite (create_flag_absent _ _ _ _ _ _ _ Hf Hs).
      right. eexists. split; [reflexivity|]. split; reflexivity. }
  split; [|split; [|split]].
  - intros r msg. unfold validate.
    destruct (empty r); [reflexivity|discriminate].
  - intros msg Hmsg.
    destruct Hout as [H | (r & H & _)]; rewrite H in Hmsg; discriminate.
  - exact Hout.
  - intros Hf Hs. apply contains_false in Hf, Hs.
    rewrite (create_flag_absent _ _ _ _ _ _ _ Hf Hs). reflexivity.
Qed.

Lemma value_flag_never_invalid_witness :
  ("--output" ∉ ["build"]) /\ ("-o" ∉ ["build"]) /\
  create_flag "output" "" "" "" "kept" false ["build"] =
  inr (mkFlag "output" "--output" "" false "-o" "kept" false).
Proof.
  assert (H1 : derive_flag "output" "" ∉ ["build"]) by by_computation.
  assert (H2 : derive_short "output" "" ∉ ["build"]) by by_computation.
  refine (conj H1 (conj H2 _)).
  exact (proj2 (proj2 (proj2
           (value_flag_never_invalid "output" "" "" "" "kept" ["build"])))
           H1 H2).
Defined.

(** ** When parse_flag raises, and where its value comes from *)

Lemma index_find_index parts m i :
  index parts m = inr i <-> find_index m parts = Some i.
Proof.
  unfold index. destruct (find_index m parts); split; congruence.
Qed.

(** [parse_flag] on a flag that takes a value, form by form. *)
Lemma parse_flag_cases f s parts :
  (exists i, index parts s = inr i /\
             parse_flag f s false parts = getitem parts (i + 1)) \/
  ((s ∉ parts) /\ exists i, index parts f = inr i /\
             parse_flag f s false parts = getitem parts (i + 1)) \/
  ((s ∉ parts) /\ (f ∉ parts) /\ parse_flag f s false parts = inr "False").
Proof.
  destruct (contains s parts) eqn:Hs.
  - left. destruct (contains_find_index _ _ Hs) as [i Hi]. exists i.
    split; [now apply index_find_index|]. now apply parse_flag_short.
  - right. pose proof (proj1 (contains_false _ _) Hs) as Hs'.
    destruct (contains f parts) eqn:Hf.
    + left. split; [exact Hs'|].
      destruct (contains_find_index _ _ Hf) as [i Hi]. exists i.
      split; [now apply index_find_index|]. now apply parse_flag_long.
    + right. split; [exact Hs'|]. split; [now apply contains_false|].
      unfold parse_flag, utils.get_command_parts, bind, ret.
      now rewrite Hf, Hs.
Qed.

Lemma parse_flag_empty_total f s parts :
  parse_flag f s true parts
  = inr (str_of_bool (contains f parts || contains s parts)).
Proof.
  unfold parse_flag, utils.get_command_parts, bind, ret.
  destruct (contains f parts), (contains s parts); reflexivity.
Qed.

Lemma getitem_inl l i x :
  getitem l i = inl x -> x = IndexError /\ length l <= i.
Proof.
  unfold getitem. destruct (l !! i) eqn:Hl; [discriminate|].
  intros [= <-]. split; [reflexivity|]. now apply lookup_ge_None_1.
Qed.

Lemma getitem_inr l i v : getitem l i = inr v -> l !! i = Some v.
Proof. unfold getitem. destruct (l !! i); congruence. Qed.

Lemma index_lookup parts m i : index parts m = inr i -> parts !! i = Some m.
Proof. intros H. now apply find_index_lookup, index_find_index. Qed.

(** X1: [parse_flag] raises nothing but [IndexError], and only for a flag
    that takes a value whose matched form (the short form if it occurs, the
    long form otherwise) is located by [list.index] at the last position of
    the command line.  The initial [index = None] never reaches the
    subscript, and [list.index] never fails. *)
Theorem parse_flag_raises_only_past_end f s e parts x :
  parse_flag f s e parts = inl x ->
  x = IndexError /\ e = false /\
  exists m i,
    (m = s \/ (m = f /\ s ∉ parts)) /\
    index parts m = inr i /\ i + 1 = length parts.
Proof.
  intros Hx. destruct e.
  { rewrite parse_flag_empty_total in Hx. discriminate. }
  assert (Hget : forall m i,
             index parts m = inr i -> getitem parts (i + 1) = inl x ->
             x = IndexError /\ i + 1 = length parts).
  { intros m i Hi Hg. apply index_lookup, lookup_lt_Some in Hi.
    apply getitem_inl in Hg as [-> Hlen]. split; [reflexivity|lia]. }
  destruct (parse_flag_cases f s parts)
    as [(i & Hi & Hp) | [(Hs & i & Hi & Hp) | (_ & _ & Hp)]];
    rewrite Hp in Hx.
  - destruct (Hget _ _ Hi Hx) as [-> Hlen].
    split; [reflexivity|]. split; [reflexivity|]. exists s, i. auto.
  - destruct (Hget _ _ Hi Hx) as [-> Hlen].
    split; [reflexivity|]. split; [reflexivity|]. exists f, i. auto.
  - discriminate.
Qed.

Lemma parse_flag_raises_only_past_end_witness :
  parse_flag "--output" "-o" false ["build"; "-o"] = inl IndexError /\
  exists m i,
    (m = "-o" \/ (m = "--output" /\ "-o" ∉ ["build"; "-o"])) /\
    index ["build"; "-o"] m = inr i /\ i + 1 = length ["build"; "-o"].
Proof.
  assert (H : parse_flag "--output" "-o" false ["build"; "-o"]
              = inl IndexError) by reflexivity.
  refine (conj H _).
  exact (proj2 (proj2 (parse_flag_raises_only_past_end
                         "--output" "-o" false ["build"; "-o"] IndexError H))).
Defined.

(** X2: when one of the forms is on the command line and [parse_flag]
    returns for a flag that takes a value, the value returned is the token
    right after the position [list.index] gives for the matched form (the
    short form if it occurs, the long form otherwise); in particular it is
    one of the tokens of the command line. *)
Theorem parse_flag_value_follows_form f s parts v :
  f ∈ parts \/ s ∈ parts ->
  parse_flag f s false parts = inr v ->
  (exists m i,
      (m = s \/ (m = f /\ s ∉ parts)) /\
      index parts m = inr i /\
      parts !! i = Some m /\ parts !! (i + 1) = Some v) /\
  v ∈ parts.
Proof.
  intros Hpresent Hv.
  destruct (parse_flag_cases f s parts)
    as [(i & Hi & Hp) | [(Hs & i & Hi & Hp) | (Hs & Hf & _)]].
  - rewrite Hp in Hv. apply getitem_inr in Hv.
    split; [|eapply list_elem_of_lookup_2, Hv].
    exists s, i. repeat split; auto. now apply index_lookup.
  - rewrite Hp in Hv. apply getitem_inr in Hv.
    split; [|eapply list_elem_of_lookup_2, Hv].
    exists f, i. repeat split; auto. now apply index_lookup.
  - tauto.
Qed.

Lemma parse_flag_value_follows_form_witness :
  ("--output" ∈ ["-o"; "result.txt"] \/ "-o" ∈ ["-o"; "result.txt"]) /\
  parse_flag "--output" "-o" false ["-o"; "result.txt"] = inr "result.txt" /\
  "result.txt" ∈ ["-o"; "result.txt"].
Proof.
  assert (H1 : "--output" ∈ ["-o"; "result.txt"] \/ "-o" ∈ ["-o"; "result.txt"]).
  { right. by_computation. }
  assert (H2 : parse_flag "--output" "-o" false ["-o"; "result.txt"]
               = inr "result.txt") by reflexivity.
  refine (conj H1 (conj H2 _)).
  exact (proj2 (parse_flag_value_follows_form
                  "--output" "-o" ["-o"; "result.txt"] "result.txt" H1 H2)).
Defined.

(** ** Outcomes of create_flag *)

Lemma present_or_absent f s (tokens : list string) :
  (contains f tokens || contains s tokens = true /\ (f ∈ tokens \/ s ∈ tokens)) \/
  (contains f tokens = false /\ contains s tokens = false /\
   (f ∉ tokens) /\ (s ∉ tokens)).
Proof.
  destruct (contains f tokens) eqn:Hf, (contains s tokens) eqn:Hs;
    try (left; split; [reflexivity|];
         first [left; now apply contains_true | right; now apply contains_true]).
  right. repeat split; now apply contains_false.
Qed.

(** X3: a flag declared empty is built in exactly one situation: neither
    form is on the command line and the caller's value is the empty string.
    The record then has [called = false] and the empty value; a record of
    an empty flag with [called = true] is never returned. *)
Theorem empty_flag_built_iff_absent n f d s v tokens r :
  create_flag n f d s v true tokens = inr r <->
  (derive_flag n f ∉ tokens) /\ (derive_short n s ∉ tokens) /\ v = "" /\
  r = mkFlag n (derive_flag n f) d false (derive_short n s) "" true.
Proof.
  destruct (present_or_absent (derive_flag n f) (derive_short n s) tokens)
    as [[Hc Hin] | (Hf & Hs & Hf' & Hs')].
  - rewrite (create_flag_empty_called_raises _ _ _ _ _ _ Hin).
    split; [discriminate|]. intros (Hf & Hs & _). tauto.
  - rewrite (create_flag_absent _ _ _ _ _ _ _ Hf Hs). unfold validate. cbn.
    destruct (String.eqb_spec v "") as [->|Hv]; cbn.
    + split; [intros [= <-]; auto | intros (_ & _ & _ & ->); reflexivity].
    + split; [discriminate | intros (_ & _ & Hv' & _); congruence].
Qed.

Lemma empty_flag_built_iff_absent_witness :
  (derive_flag "dry run" "" ∉ ["build"; "-v"]) /\
  (derive_short "dry run" "" ∉ ["build"; "-v"]) /\
  create_flag "dry run" "" "preview" "" "" true ["build"; "-v"] =
  inr (mkFlag "dry run" "--dry-run" "preview" false "-dr" "" true).
Proof.
  assert (H1 : derive_flag "dry run" "" ∉ ["build"; "-v"]) by by_computation.
  assert (H2 : derive_short "dry run" "" ∉ ["build"; "-v"]) by by_computation.
  refine (conj H1 (conj H2 _)).
  exact (proj2 (empty_flag_built_iff_absent "dry run" "" "preview" "" ""
                  ["build"; "-v"] _)
           (conj H1 (conj H2 (conj eq_refl eq_refl)))).
Defined.

(** X4: every exception out of [create_flag] is one of two.  For a flag
    declared empty it is the [ValueError] of validation, whose message
    holds "True" when the flag is on the command line and the caller's
    non-empty value when it is not.  For a flag that takes a value it is
    the [IndexError] of the extraction, and the flag is on the command
    line.  [TypeError] and the [ValueError] of [list.index] never come
    out. *)
Theorem create_flag_raises n f d s v e tokens x :
  create_flag n f d s v e tokens = inl x ->
  (e = true /\
   exists w,
     x = ValueError ("Cannot set value (" +:+ w +:+ ") for empty flag ("
                       +:+ derive_flag n f +:+ ")") /\
     ((w = "True" /\ (derive_flag n f ∈ tokens \/ derive_short n s ∈ tokens)) \/
      (w = v /\ v <> "" /\
       (derive_flag n f ∉ tokens) /\ (derive_short n s ∉ tokens)))) \/
  (e = false /\ x = IndexError /\
   (derive_flag n f ∈ tokens \/ derive_short n s ∈ tokens)).
Proof.
  intros Hx.
  destruct (present_or_absent (derive_flag n f) (derive_short n s) tokens)
    as [[Hc Hin] | (Hf & Hs & Hf' & Hs')]; destruct e.
  - rewrite (create_flag_empty_called_raises _ _ _ _ _ _ Hin) in Hx.
    left. split; [reflexivity|]. exists "True".
    injection Hx as <-. split; [reflexivity|auto].
  - right. split; [reflexivity|]. split; [|exact Hin].
    rewrite (create_flag_called _ _ _ _ _ _ _ Hc) in Hx.
    destruct (parse_flag_cases (derive_flag n f) (derive_short n s) tokens)
      as [(i & _ & Hp) | [(_ & i & _ & Hp) | (_ & _ & Hp)]];
      rewrite Hp in Hx; [| |discriminate Hx];
      (destruct (getitem tokens (i + 1)) as [y|val] eqn:Hg;
       [apply getitem_inl in Hg as [-> _]; congruence | discriminate Hx]).
  - rewrite (create_flag_absent _ _ _ _ _ _ _ Hf Hs) in Hx.
    unfold validate in Hx. cbn in Hx.
    destruct (String.eqb_spec v "") as [->|Hv]; cbn in Hx; [discriminate|].
    left. split; [reflexivity|]. exists v.
    injection Hx as <-. split; [reflexivity|]. right. auto.
  - rewrite (create_flag_absent _ _ _ _ _ _ _ Hf Hs) in Hx. discriminate.
Qed.

Lemma create_flag_raises_witness :
  create_flag "output" "" "" "" "" false ["build"; "--output"]
  = inl IndexError /\
  (derive_flag "output" "" ∈ ["build"; "--output"] \/
   derive_short "output" "" ∈ ["build"; "--output"]).
Proof.
  assert (H : create_flag "output" "" "" "" "" false ["build"; "--output"]
              = inl IndexError) by reflexivity.
  refine (conj H _).
  destruct (create_flag_raises "output" "" "" "" "" false
              ["build"; "--output"] IndexError H)
    as [[He _] | (_ & _ & Hin)]; [discriminate He | exact Hin].
Defined.

(** X5: the value of a record built for a flag that takes a value is
    either the caller's value, when the flag is not called, or, when it is
    called, the token right after an occurrence of the short form, or of
    the long form if the short form does not occur. *)
Theorem create_flag_value_provenance n f d s v tokens r :
  create_flag n f d s v false tokens = inr r ->
  (called r = false /\ value r = v /\
   (flag r ∉ tokens) /\ (short r ∉ tokens)) \/
  (called r = true /\
   exists i,
     (tokens !! i = Some (short r) \/
      (tokens !! i = Some (flag r) /\ short r ∉ tokens)) /\
     tokens !! (i + 1) = Some (value r)).
Proof.
  intros Hr.
  destruct (present_or_absent (derive_flag n f) (derive_short n s) tokens)
    as [[Hc Hin] | (Hf & Hs & Hf' & Hs')].
  - right. rewrite (create_flag_called _ _ _ _ _ _ _ Hc) in Hr.
    destruct (parse_flag_cases (derive_flag n f) (derive_short n s) tokens)
      as [(i & Hi & Hp) | [(Hno & i & Hi & Hp) | (Hno & Hnf & _)]];
      [| |tauto]; rewrite Hp in Hr;
      (destruct (getitem tokens (i + 1)) as [y|val] eqn:Hg; [discriminate|]);
      cbn in Hr; injection Hr as <-; cbn; (split; [reflexivity|]);
      exists i; apply index_lookup in Hi; apply getitem_inr in Hg; auto.
  - left. rewrite (create_flag_absent _ _ _ _ _ _ _ Hf Hs) in Hr.
    cbn in Hr. injection Hr as <-. cbn. auto.
Qed.

Lemma create_flag_value_provenance_witness :
  create_flag "output" "" "" "" "" false ["-o"; "result.txt"] =
  inr (mkFlag "output" "--output" "" true "-o" "result.txt" false) /\
  exists i,
    (["-o"; "result.txt"] !! i = Some "-o" \/
     (["-o"; "result.txt"] !! i = Some "--output" /\
      "-o" ∉ ["-o"; "result.txt"])) /\
    ["-o"; "result.txt"] !! (i + 1) = Some "result.txt".
Proof.
  assert (H : create_flag "output" "" "" "" "" false ["-o"; "result.txt"] =
              inr (mkFlag "output" "--output" "" true "-o" "result.txt" false))
    by reflexivity.
  refine (conj H _).
  destruct (create_flag_value_provenance "output" "" "" "" ""
              ["-o"; "result.txt"] _ H) as [[Hc _] | [_ Hex]];
    [discriminate Hc | exact Hex].
Defined.

Lemma derive_flag_override n f : f <> "" -> derive_flag n f = f.
Proof.
  intros Hf. unfold derive_flag.
  destruct (String.eqb_spec f "") as [->|_]; [congruence|reflexivity].
Qed.

Lemma derive_short_override n s : s <> "" -> derive_short n s = s.
Proof.
  intros Hs. unfold derive_short.
  destruct (String.eqb_spec s "") as [->|_]; [congruence|reflexivity].
Qed.

(** X6: when both forms are given by the caller they are used as given,
    and the name only fills the [name] field: with another name the same
    exception is raised, or the same record is returned but for its name. *)
Theorem overrides_make_name_irrelevant n n' f d s v e tokens :
  f <> "" -> s <> "" ->
  (forall x, create_flag n f d s v e tokens = inl x ->
             create_flag n' f d s v e tokens = inl x) /\
  (forall r, create_flag n f d s v e tokens = inr r ->
             flag r = f /\ short r = s /\
             create_flag n' f d s v e tokens
             = inr (mkFlag n' f d (called r) s (value r) e)).
Proof.
  intros Hf Hs.
  pose proof (derive_flag_override n f Hf) as Hfn.
  pose proof (derive_short_override n s Hs) as Hsn.
  pose proof (derive_flag_override n' f Hf) as Hfn'.
  pose proof (derive_short_override n' s Hs) as Hsn'.
  unfold create_flag, utils.is_called, utils.get_command_parts, bind, ret, lift.
  cbv zeta. rewrite Hfn, Hsn, Hfn', Hsn'.
  destruct ((if contains f tokens || contains s tokens
             then parse_flag f s e else fun _ => inr v) tokens) as [y|val].
  { split; [auto | discriminate]. }
  unfold validate. cbn.
  destruct (e && negb (String.eqb val "")).
  { split; [auto | discriminate]. }
  split; [discriminate|]. intros r [= <-]. cbn. auto.
Qed.

Lemma overrides_make_name_irrelevant_witness :
  "--out" <> "" /\ "-O" <> "" /\
  create_flag "output file" "--out" "" "-O" "" false ["-O"; "a.txt"] =
  inr (mkFlag "output file" "--out" "" true "-O" "a.txt" false) /\
  create_flag "target" "--out" "" "-O" "" false ["-O"; "a.txt"] =
  inr (mkFlag "target" "--out" "" true "-O" "a.txt" false).
Proof.
  assert (H1 : "--out" <> "") by discriminate.
  assert (H2 : "-O" <> "") by discriminate.
  assert (H3 : create_flag "output file" "--out" "" "-O" "" false
                 ["-O"; "a.txt"] =
               inr (mkFlag "output file" "--out" "" true "-O" "a.txt" false))
    by reflexivity.
  refine (conj H1 (conj H2 (conj H3 _))).
  exact (proj2 (proj2 (proj2 (overrides_make_name_irrelevant
                                "output file" "target" "--out" "" "-O" "" false
                                ["-O"; "a.txt"] H1 H2) _ H3))).
Defined.

(** ** Switches and the order of the command line *)

Lemma contains_same_elements x (l l' : list string) :
  (forall y, y ∈ l <-> y ∈ l') -> contains x l = contains x l'.
Proof. intros H. unfold contains. apply bool_decide_ext, H. Qed.

Lemma create_flag_empty_outcome n f d s v tokens :
  create_flag n f d s v true tokens =
  if contains (derive_flag n f) tokens || contains (derive_short n s) tokens
  then inl (ValueError ("Cannot set value (True) for empty flag ("
                          +:+ derive_flag n f +:+ ")"))
  else if String.eqb v ""
       then inr (mkFlag n (derive_flag n f) d false (derive_short n s) v true)
       else inl (ValueError ("Cannot set value (" +:+ v
                               +:+ ") for empty flag ("
                               +:+ derive_flag n f +:+ ")")).
Proof.
  destruct (present_or_absent (derive_flag n f) (derive_short n s) tokens)
    as [[Hc Hin] | (Hf & Hs & _ & _)].
  - rewrite Hc. now apply create_flag_empty_called_raises.
  - rewrite Hf, Hs, (create_flag_absent _ _ _ _ _ _ _ Hf Hs).
    unfold validate. cbn. now destruct (String.eqb v "").
Qed.

(** X7: for a flag declared empty neither [parse_flag] nor [create_flag]
    looks at the order or the repetition of the tokens: two command lines
    with the same elements give the same outcome. *)
Theorem switch_ignores_order n f d s v tokens tokens' :
  (forall x, x ∈ tokens <-> x ∈ tokens') ->
  parse_flag (derive_flag n f) (derive_short n s) true tokens
  = parse_flag (derive_flag n f) (derive_short n s) true tokens' /\
  create_flag n f d s v true tokens = create_flag n f d s v true tokens'.
Proof.
  intros Hsame.
  rewrite !parse_flag_empty_total, !create_flag_empty_outcome.
  rewrite (contains_same_elements (derive_flag n f) _ _ Hsame).
  rewrite (contains_same_elements (derive_short n s) _ _ Hsame).
  split; reflexivity.
Qed.

Lemma switch_ignores_order_witness :
  (forall x, x ∈ ["build"; "-dr"] <-> x ∈ ["-dr"; "build"; "-dr"]) /\
  parse_flag (derive_flag "dry run" "") (derive_short "dry run" "") true
    ["build"; "-dr"]
  = parse_flag (derive_flag "dry run" "") (derive_short "dry run" "") true
      ["-dr"; "build"; "-dr"] /\
  create_flag "dry run" "" "" "" "" true ["build"; "-dr"]
  = create_flag "dry run" "" "" "" "" true ["-dr"; "build"; "-dr"].
Proof.
  assert (H : forall x : string,
             x ∈ ["build"; "-dr"] <-> x ∈ ["-dr"; "build"; "-dr"]).
  { intros x. rewrite !elem_of_cons, !elem_of_nil. tauto. }
  refine (conj H _).
  exact (switch_ignores_order "dry run" "" "" "" "" ["build"; "-dr"]
           ["-dr"; "build"; "-dr"] H).
Defined.

(** ** Lengths of the derived forms *)

Lemma length_append s1 s2 :
  String.length (s1 +:+ s2) = String.length s1 + String.length s2.
Proof.
  induction s1 as [|c s1 IH]; [reflexivity|].
  change (S (String.length (s1 +:+ s2))
          = S (String.length s1 + String.length s2)).
  now rewrite IH.
Qed.

Lemma initials_length_le parts :
  String.length (initials parts) <= String.length (dashed parts).
Proof.
  induction parts as [|w ws IH]; [reflexivity|].
  assert (Hhead : String.length (initials (w :: ws))
                  <= String.length w + String.length (initials ws)).
  { destruct w as [|c w]; cbn; lia. }
  destruct ws as [|w' ws].
  - change (String.length (initials [])) with 0 in Hhead.
    change (dashed [w]) with w. lia.
  - change (dashed (w :: w' :: ws)) with (w +:+ "-" +:+ dashed (w' :: ws)).
    rewrite !length_append. lia.
Qed.

(** X8: whatever the name, the derived short form is strictly shorter than
    the derived long form; the two derived forms are never the same
    token. *)
Theorem derived_short_is_shorter n :
  String.length (derive_short n "") < String.length (derive_flag n "") /\
  derive_short n "" <> derive_flag n "".
Proof.
  assert (Hlt : String.length (derive_short n "")
                < String.length (derive_flag n "")).
  { unfold derive_short, derive_flag.
    rewrite String.eqb_refl, join_dashed, join_initials, !length_append.
    pose proof (initials_length_le (utils.get_name_parts n)).
    change (String.length "-") with 1. change (String.length "--") with 2.
    lia. }
  split; [exact Hlt|]. intros Heq. rewrite Heq in Hlt. lia.
Qed.

Lemma derived_short_is_shorter_witness :
  String.length (derive_short "dry run" "")
  < String.length (derive_flag "dry run" "") /\
  derive_short "dry run" "" <> derive_flag "dry run" "".
Proof. exact (derived_short_is_shorter "dry run"). Defined.

(** ** The rendering of a flag *)

Lemma no_newline_append a b :
  no_newline (a +:+ b) = no_newline a && no_newline b.
Proof.
  induction a as [|c a IH]; [reflexivity|].
  change (negb (Ascii.eqb c "010") && no_newline (a +:+ b)
          = negb (Ascii.eqb c "010") && no_newline a && no_newline b).
  rewrite IH. apply andb_assoc.
Qed.

(** Two texts that agree have the same first line and the same rest. *)
Lemma first_line_inj a b t u :
  no_newline a = true -> no_newline b = true ->
  a +:+ String "010" t = b +:+ String "010" u ->
  a = b /\ t = u.
Proof.
  revert b. induction a as [|c a IH]; intros [|c' b] Ha Hb Heq.
  - injection Heq as ->. auto.
  - cbn in Hb. injection Heq as <- _. discriminate Hb.
  - cbn in Ha. injection Heq as -> _. discriminate Ha.
  - cbn in Ha, Hb. apply andb_true_iff in Ha as [_ Ha], Hb as [_ Hb].
    injection Heq as -> Heq. destruct (IH b Ha Hb Heq) as [-> ->]. auto.
Qed.

Lemma append_char_inj a b c :
  a +:+ String c "" = b +:+ String c "" -> a = b.
Proof.
  revert b. induction a as [|x a IH]; intros [|y b] Heq.
  - reflexivity.
  - injection Heq as _ Heq. destruct b; discriminate Heq.
  - injection Heq as _ Heq. destruct a; discriminate Heq.
  - injection Heq as -> Heq. now rewrite (IH b Heq).
Qed.

(** [to_str], line by line. *)
Lemma to_str_lines r :
  to_str r =
  ("Flag (" +:+ flag r +:+ ")") +:+ String "010"
    (String " " (("Short (" +:+ short r +:+ ")") +:+ String "010"
    (String " " (("Name: " +:+ name r) +:+ String "010"
    (String " " (("Empty Arg: " +:+ str_of_bool (empty r)) +:+ String "010"
    (String " " ("Description: " +:+ description r)))))))).
Proof. reflexivity. Qed.

Lemma append_inj_l s a b : s +:+ a = s +:+ b -> a = b.
Proof.
  induction s as [|c s IH]; intros H; [exact H|].
  injection H as H. now apply IH.
Qed.

Lemma no_newline_wrapped pre x post :
  no_newline pre = true -> no_newline post = true -> no_newline x = true ->
  no_newline (pre +:+ x +:+ post) = true.
Proof. intros Hpre Hpost Hx. now rewrite !no_newline_append, Hpre, Hx, Hpost. Qed.

(** X9: [__str__] shows the long form, the short form, the name, the empty
    mark and the description, and nothing of [called] and [value].  For
    records whose long form, short form and name hold no line feed, two
    renderings are the same text exactly when those five fields agree. *)
Theorem to_str_determines_shown_fields r1 r2 :
  no_newline (flag r1) = true -> no_newline (short r1) = true ->
  no_newline (name r1) = true ->
  no_newline (flag r2) = true -> no_newline (short r2) = true ->
  no_newline (name r2) = true ->
  to_str r1 = to_str r2 <->
  flag r1 = flag r2 /\ short r1 = short r2 /\ name r1 = name r2 /\
  empty r1 = empty r2 /\ description r1 = description r2.
Proof.
  intros Hf1 Hs1 Hn1 Hf2 Hs2 Hn2. split.
  - rewrite !to_str_lines. intros H.
    apply first_line_inj in H as [Hflag H];
      [|now apply no_newline_wrapped..].
    injection H as H.
    apply first_line_inj in H as [Hshort H];
      [|now apply no_newline_wrapped..].
    injection H as H.
    apply first_line_inj in H as [Hname H];
      [|rewrite no_newline_append; (rewrite Hn1 || rewrite Hn2); reflexivity..].
    injection H as H.
    apply first_line_inj in H as [Hempty H];
      [|first [destruct (empty r1); reflexivity
              |destruct (empty r2); reflexivity]..].
    injection H as Hdescr.
    apply append_inj_l, append_char_inj in Hflag.
    apply append_inj_l, append_char_inj in Hshort.
    apply append_inj_l in Hname, Hempty, Hdescr.
    repeat split; try assumption.
    destruct (empty r1), (empty r2); (reflexivity || discriminate Hempty).
  - intros (Hflag & Hshort & Hname & Hempty & Hdescr).
    unfold to_str. now rewrite Hflag, Hshort, Hname, Hempty, Hdescr.
Qed.

Lemma to_str_determines_shown_fields_witness :
  no_newline "--output" = true /\ no_newline "-o" = true /\
  no_newline "output" = true /\
  to_str (mkFlag "output" "--output" "where to write" false "-o" "" false)
  = to_str (mkFlag "output" "--output" "where to write" true "-o" "a.txt"
              false).
Proof.
  assert (H1 : no_newline "--output" = true) by reflexivity.
  assert (H2 : no_newline "-o" = true) by reflexivity.
  assert (H3 : no_newline "output" = true) by reflexivity.
  refine (conj H1 (conj H2 (conj H3 _))).
  exact (proj2 (to_str_determines_shown_fields
                  (mkFlag "output" "--output" "where to write" false "-o" ""
                     false)
                  (mkFlag "output" "--output" "where to write" true "-o"
                     "a.txt" false)
                  H1 H2 H3 H1 H2 H3)
           (conj eq_refl (conj eq_refl (conj eq_refl
              (conj eq_refl eq_refl))))).
Defined.

(** ** A record against a second parse *)

(** X10: for every record [create_flag] returns, running [parse_flag]
    again on the record's own forms and empty mark against the same command
    line returns the record's value when the record is called, and the
    string "False" when it is not, whatever value the record holds. *)
Theorem record_value_is_parse_flag n f d s v e tokens r :
  create_flag n f d s v e tokens = inr r ->
  parse_flag (flag r) (short r) (empty r) tokens
  = inr (if called r then value r else "False").
Proof.
  intros Hr.
  destruct (present_or_absent (derive_flag n f) (derive_short n s) tokens)
    as [[Hc Hin] | (Hf & Hs & _ & _)].
  - rewrite (create_flag_called _ _ _ _ _ _ _ Hc) in Hr.
    destruct (parse_flag _ _ e tokens) as [y|val] eqn:Hp; [discriminate|].
    cbn in Hr. destruct (validate _); [discriminate|].
    injection Hr as <-. cbn. exact Hp.
  - rewrite (create_flag_absent _ _ _ _ _ _ _ Hf Hs) in Hr.
    cbn in Hr. destruct (validate _); [discriminate|].
    injection Hr as <-. cbn.
    unfold parse_flag, utils.get_command_parts, bind, ret.
    now rewrite Hf, Hs.
Qed.

Lemma record_value_is_parse_flag_witness :
  create_flag "output" "" "" "" "kept" false ["build"] =
  inr (mkFlag "output" "--output" "" false "-o" "kept" false) /\
  parse_flag "--output" "-o" false ["build"] = inr "False".
Proof.
  assert (H : create_flag "output" "" "" "" "kept" false ["build"] =
              inr (mkFlag "output" "--output" "" false "-o" "kept" false))
    by reflexivity.
  refine (conj H _).
  exact (record_value_is_parse_flag "output" "" "" "" "kept" false ["build"]
           _ H).
Defined.
